(** * KJ Orbital: launch azimuth, Echo I orbit propagation and reentry stepping

    A shallow embedding of the three numerical models of the repository
    ([src/sim/azimuth.js], [src/sim/echoi.js] and the reentry module) and the
    properties stated about them.

    JavaScript numbers are embedded as the real numbers extended with the
    three IEEE-754 special values: arithmetic is exact (no rounding, no
    overflow, a single unsigned zero), while division by zero, square roots of
    negative numbers and arithmetic on infinities produce [PInf], [NInf] and
    [NaN] the way the language defines them.  Every result below is a
    statement about this exact-arithmetic reading of the code. *)

From Stdlib Require Import Reals Lra Lia List String Arith.
From Stdlib Require Import Sorting.Sorted.
Import ListNotations.

Open Scope R_scope.

(* ================================================================= *)
(** * Part I: definitions *)
(* ================================================================= *)

(** ** JavaScript numbers *)

Module JS.

Inductive number : Type :=
| Fin (r : R)
| PInf
| NInf
| NaN.

(** The infinity carrying the sign of [x]; [NaN] when [x] is zero
    (the value of [0 * Infinity] and of [0 / 0]). *)
Definition signed_inf (x : R) : number :=
  if Req_dec_T x 0 then NaN
  else if Rlt_dec 0 x then PInf else NInf.

Definition neg (a : number) : number :=
  match a with
  | Fin x => Fin (- x)
  | PInf => NInf
  | NInf => PInf
  | NaN => NaN
  end.

Definition add (a b : number) : number :=
  match a, b with
  | Fin x, Fin y => Fin (x + y)
  | NaN, _ | _, NaN => NaN
  | PInf, NInf | NInf, PInf => NaN
  | PInf, _ | _, PInf => PInf
  | NInf, _ | _, NInf => NInf
  end.

Definition sub (a b : number) : number := add a (neg b).

Definition mul (a b : number) : number :=
  match a, b with
  | Fin x, Fin y => Fin (x * y)
  | NaN, _ | _, NaN => NaN
  | Fin x, PInf | PInf, Fin x => signed_inf x
  | Fin x, NInf | NInf, Fin x => signed_inf (- x)
  | PInf, PInf | NInf, NInf => PInf
  | PInf, NInf | NInf, PInf => NInf
  end.

Definition div (a b : number) : number :=
  match a, b with
  | Fin x, Fin y => if Req_dec_T y 0 then signed_inf x else Fin (x / y)
  | NaN, _ | _, NaN => NaN
  | Fin _, PInf | Fin _, NInf => Fin 0
  | PInf, Fin y => if Rlt_dec y 0 then NInf else PInf
  | NInf, Fin y => if Rlt_dec y 0 then PInf else NInf
  | PInf, PInf | PInf, NInf | NInf, PInf | NInf, NInf => NaN
  end.

(** Comparisons: every comparison with [NaN] is false. *)
Definition ltb (a b : number) : bool :=
  match a, b with
  | Fin x, Fin y => if Rlt_dec x y then true else false
  | Fin _, PInf => true
  | NInf, Fin _ | NInf, PInf => true
  | _, _ => false
  end.

Definition leb (a b : number) : bool :=
  match a, b with
  | Fin x, Fin y => if Rle_dec x y then true else false
  | Fin _, PInf | PInf, PInf => true
  | NInf, Fin _ | NInf, PInf | NInf, NInf => true
  | _, _ => false
  end.

Definition gtb (a b : number) : bool := ltb b a.
Definition geb (a b : number) : bool := leb b a.

(** The [Math] functions the sources call. *)
Definition Math_PI : number := Fin PI.

Definition Math_abs (a : number) : number :=
  match a with
  | Fin x => Fin (Rabs x)
  | PInf | NInf => PInf
  | NaN => NaN
  end.

Definition Math_cos (a : number) : number :=
  match a with Fin x => Fin (cos x) | _ => NaN end.

Definition Math_sin (a : number) : number :=
  match a with Fin x => Fin (sin x) | _ => NaN end.

Definition Math_exp (a : number) : number :=
  match a with
  | Fin x => Fin (exp x)
  | PInf => PInf
  | NInf => Fin 0
  | NaN => NaN
  end.

Definition Math_sqrt (a : number) : number :=
  match a with
  | Fin x => if Rlt_dec x 0 then NaN else Fin (sqrt x)
  | PInf => PInf
  | NInf | NaN => NaN
  end.

Definition Math_acos (a : number) : number :=
  match a with
  | Fin x => if Rlt_dec 1 (Rabs x) then NaN else Fin (acos x)
  | _ => NaN
  end.

(** [Math.pow(x, n)] and [x ** n] for the literal exponents of the sources
    (2 and 3), with the exponent a natural number. *)
Definition Math_pow (a : number) (n : nat) : number :=
  match a with
  | Fin x => Fin (x ^ n)
  | PInf => if Nat.eqb n 0 then Fin 1 else PInf
  | NInf => if Nat.eqb n 0 then Fin 1 else if Nat.even n then PInf else NInf
  | NaN => if Nat.eqb n 0 then Fin 1 else NaN
  end.

Definition is_finite (a : number) : Prop := exists r, a = Fin r.

(** A parameter with a default value: [undefined] takes the default. *)
Definition with_default (d : number) (o : option number) : number :=
  match o with Some v => v | None => d end.

(** Completion of a call: a returned value or a thrown [Error]. *)
Inductive completion (A : Type) : Type :=
| Return (v : A)
| Throw (message : string).
Arguments Return {A} v.
Arguments Throw {A} message.

Definition bind {A B} (c : completion A) (k : A -> completion B) : completion B :=
  match c with
  | Return v => k v
  | Throw m => Throw m
  end.

End JS.

Declare Scope js_scope.
Delimit Scope js_scope with js.
Bind Scope js_scope with JS.number.
Notation "x + y" := (JS.add x y) : js_scope.
Notation "x - y" := (JS.sub x y) : js_scope.
Notation "x * y" := (JS.mul x y) : js_scope.
Notation "x / y" := (JS.div x y) : js_scope.
Notation "- x" := (JS.neg x) : js_scope.
Notation "x <? y" := (JS.ltb x y) (at level 70) : js_scope.
Notation "x >? y" := (JS.gtb x y) (at level 70) : js_scope.
Notation "x >=? y" := (JS.geb x y) (at level 70) : js_scope.
Notation "'let*' x := c 'in' k" := (JS.bind c (fun x => k))
  (at level 10, x name, c at level 100, k at level 200).

Import JS.

(** ** [src/sim/azimuth.js]: launch azimuth and orbital geometry *)

Module Azimuth.
Local Open Scope js_scope.

Definition EARTH_RADIUS_KM : number := Fin 6378.0.
Definition EARTH_ROT_RATE : number := Fin 0.25068.
Definition G0 : number := Fin 9.80665.

Definition degToRad (degrees : number) : number :=
  (degrees * Math_PI) / Fin 180.

Definition radToDeg (radians : number) : number :=
  (radians * Fin 180) / Math_PI.

Definition computeSemilatusRectum (semimajorAxis eccentricity : number) : number :=
  semimajorAxis * (Fin 1 - Math_pow eccentricity 2).

Definition computeOrbitalRadius (p trueAnomalyDeg eccentricity : number) : number :=
  let theta := degToRad trueAnomalyDeg in
  p / (Fin 1 + eccentricity * Math_cos theta).

Definition computeCircularVelocity (radiusKm : number) : number :=
  Math_sqrt (Fin 1 / radiusKm).

Definition computeTimeFromPerigee (orbitalPeriodMin eccentricAnomalyDeg : number)
  : number :=
  let eccentricAnomalyRad := degToRad eccentricAnomalyDeg in
  (orbitalPeriodMin / (Fin 2 * Math_PI)) * eccentricAnomalyRad.

Definition computeEarthRotationLongitude (timeMin : number) : number :=
  EARTH_ROT_RATE * timeMin.

(** The message of the [Error] thrown for an unreachable inclination (the
    domain error of the specification). *)
Definition DomainError : string :=
  "Target inclination cannot be achieved from this latitude.".

Definition computeLaunchAzimuth (latitudeDeg inclinationDeg : number)
  : completion number :=
  let phi := degToRad latitudeDeg in
  let inclination := degToRad inclinationDeg in
  let cosPsi := Math_cos inclination / Math_cos phi in
  if Math_abs cosPsi >? Fin 1 then Throw DomainError
  else
    let psi := Math_acos cosPsi in
    Return (radToDeg psi).

(** The quotient [cosPsi] that [computeLaunchAzimuth] tests, for finite
    angles in degrees. *)
Definition cos_ratio (lat inc : R) : number :=
  Math_cos (degToRad (Fin inc)) / Math_cos (degToRad (Fin lat)).

Definition isInclinationReachable (latitudeDeg inclinationDeg : number) : bool :=
  Math_abs inclinationDeg >=? Math_abs latitudeDeg.

(** The object argument of [runAzimuthSimulation]; [timeSinceEpochMin] may
    be left out and then defaults to 0. *)
Record SimulationInput : Type := {
  latitudeDeg : number;
  inclinationDeg : number;
  timeSinceEpochMin : option number
}.

Record SimulationResult : Type := {
  azimuthDeg : number;
  longitudeShiftDeg : number;
  feasible : bool
}.

Definition runAzimuthSimulation (input : SimulationInput)
  : completion SimulationResult :=
  let latitudeDeg := latitudeDeg input in
  let inclinationDeg := inclinationDeg input in
  let timeSinceEpochMin := with_default (Fin 0) (timeSinceEpochMin input) in
  let* azimuthDeg := computeLaunchAzimuth latitudeDeg inclinationDeg in
  let longitudeShiftDeg := computeEarthRotationLongitude timeSinceEpochMin in
  Return {| azimuthDeg := azimuthDeg;
            longitudeShiftDeg := longitudeShiftDeg;
            feasible := isInclinationReachable latitudeDeg inclinationDeg |}.

End Azimuth.

(** ** [src/sim/echoi.js]: Echo I orbital behaviour model *)

Module EchoI.
Local Open Scope js_scope.

Definition MU : number := Fin 3.986004418e14.
Definition R_E : number := Fin 6378137.
Definition J2 : number := Fin 1.08263e-3.
Definition DEG : number := Fin 180 / Math_PI.

(** The real values of the first three constants. *)
Definition mu : R := 3.986004418e14.
Definition r_e : R := 6378137.
Definition j2 : R := 1.08263e-3.

Definition RHO_0 : number := Fin 1.225.
Definition SCALE_HEIGHT : number := Fin 8500.

Definition atmosphericDensity (altitude : number) : number :=
  RHO_0 * Math_exp ((- altitude) / SCALE_HEIGHT).

Definition meanMotion (semiMajorAxis : number) : number :=
  Math_sqrt (MU / Math_pow semiMajorAxis 3).

Definition orbitalPeriod (semiMajorAxis : number) : number :=
  Fin 2 * Math_PI / meanMotion semiMajorAxis.

Definition raanDriftRate (a e inclination : number) : number :=
  let n := meanMotion a in
  Fin (-1.5) *
  J2 *
  Math_pow (R_E / a) 2 *
  (n * Math_cos inclination) /
  Math_pow (Fin 1 - e * e) 2.

Definition perigeeDriftRate (a e inclination : number) : number :=
  let n := meanMotion a in
  Fin 0.75 *
  J2 *
  Math_pow (R_E / a) 2 *
  (n * (Fin 5 * Math_pow (Math_cos inclination) 2 - Fin 1)) /
  Math_pow (Fin 1 - e * e) 2.

Definition semiMajorAxisDecay (a area mass dragCoeff : number) : number :=
  let altitude := a - R_E in
  let rho := atmosphericDensity altitude in
  (- dragCoeff) *
  (area / mass) *
  rho *
  Math_sqrt (MU * a).

(** The object argument of [propagateOrbit].  [eccentricity], [dragCoeff]
    and [revolutions] may be left out and take the defaults 0.0, 2.2 and
    1000.  The revolution count is a natural number. *)
Record OrbitConfig : Type := {
  semiMajorAxis : number;
  eccentricity : option number;
  inclination : number;
  area : number;
  mass : number;
  dragCoeff : option number;
  revolutions : option nat
}.

Module Snapshot.
Record t : Type := {
  orbit : nat;
  semiMajorAxis : number;
  altitude : number;
  raanDeg : number;
  perigeeDeg : number
}.
End Snapshot.

Definition get_eccentricity (cfg : OrbitConfig) : number :=
  with_default (Fin 0.0) (eccentricity cfg).
Definition get_dragCoeff (cfg : OrbitConfig) : number :=
  with_default (Fin 2.2) (dragCoeff cfg).
Definition get_revolutions (cfg : OrbitConfig) : nat :=
  match revolutions cfg with Some n => n | None => 1000%nat end.

(** The variables of the body of [propagateOrbit]: the loop counter [N],
    the three accumulators and the [history] array. *)
Record Vars : Type := {
  N : nat;
  a : number;
  Omega : number;
  omega : number;
  history : list Snapshot.t
}.

Definition initial (cfg : OrbitConfig) : Vars :=
  {| N := 0; a := semiMajorAxis cfg; Omega := Fin 0; omega := Fin 0;
     history := [] |}.

(** One pass through the body of the [for] loop, [N++] included. *)
Definition revolution (cfg : OrbitConfig) (st : Vars) : Vars :=
  let T := orbitalPeriod (a st) in
  let da_dt := semiMajorAxisDecay (a st) (area cfg) (mass cfg) (get_dragCoeff cfg) in
  let dOmega_dt := raanDriftRate (a st) (get_eccentricity cfg) (inclination cfg) in
  let domega_dt := perigeeDriftRate (a st) (get_eccentricity cfg) (inclination cfg) in
  let a' := a st + da_dt * T in
  let Omega' := Omega st + dOmega_dt * T in
  let omega' := omega st + domega_dt * T in
  {| N := S (N st); a := a'; Omega := Omega'; omega := omega';
     history := history st ++
       [ {| Snapshot.orbit := N st;
            Snapshot.semiMajorAxis := a';
            Snapshot.altitude := a' - R_E;
            Snapshot.raanDeg := Omega' * DEG;
            Snapshot.perigeeDeg := omega' * DEG |} ] |}.

(** [k] passes through the loop body, starting in [st]. *)
Fixpoint loop (cfg : OrbitConfig) (k : nat) (st : Vars) : Vars :=
  match k with
  | O => st
  | S k' => loop cfg k' (revolution cfg st)
  end.

Definition propagateOrbit (cfg : OrbitConfig) : list Snapshot.t :=
  history (loop cfg (get_revolutions cfg) (initial cfg)).

(** One revolution's drift of each angle on the initial orbit: drift rate
    times orbital period. *)
Definition raan_drift (cfg : OrbitConfig) : number :=
  raanDriftRate (semiMajorAxis cfg) (get_eccentricity cfg) (inclination cfg)
  * orbitalPeriod (semiMajorAxis cfg).
Definition perigee_drift (cfg : OrbitConfig) : number :=
  perigeeDriftRate (semiMajorAxis cfg) (get_eccentricity cfg) (inclination cfg)
  * orbitalPeriod (semiMajorAxis cfg).

(** The snapshots pushed by [k] passes starting in [st], oldest first. *)
Fixpoint pushed (cfg : OrbitConfig) (k : nat) (st : Vars) : list Snapshot.t :=
  match k with
  | O => []
  | S k' =>
      let st' := revolution cfg st in
      {| Snapshot.orbit := N st;
         Snapshot.semiMajorAxis := a st';
         Snapshot.altitude := a st' - R_E;
         Snapshot.raanDeg := Omega st' * DEG;
         Snapshot.perigeeDeg := omega st' * DEG |} :: pushed cfg k' st'
  end.

(** An accumulator that started at 0 and took [n] additions of [drift]. *)
Fixpoint accumulated (n : nat) (drift : number) : number :=
  match n with
  | O => Fin 0
  | S n' => accumulated n' drift + drift
  end.

(** Successive values going strictly down, respectively strictly up, under
    the comparison of the language. *)
Definition strictly_decreasing (l : list number) : Prop :=
  Sorted (fun x y => (x >? y) = true) l.
Definition strictly_increasing (l : list number) : Prop :=
  Sorted (fun x y => (x <? y) = true) l.

(** The semi-major axis is a positive real number in every snapshot. *)
Definition axis_stays_positive (h : list Snapshot.t) : Prop :=
  Forall (fun s => exists r, Snapshot.semiMajorAxis s = Fin r /\ (0 < r)%R) h.

(** The semi-major axis has left the positive reals for good: it is [NaN]
    or a negative real number. *)
Definition axis_lost (x : number) : Prop :=
  x = NaN \/ exists r, x = Fin r /\ (r < 0)%R.

(** The two example runs at the end of the file. *)
Definition echoI : OrbitConfig :=
  {| semiMajorAxis := R_E + Fin 1600000;
     eccentricity := None;
     inclination := Fin 47 * Math_PI / Fin 180;
     area := Fin 400;
     mass := Fin 75;
     dragCoeff := None;
     revolutions := Some 500%nat |}.

Definition casing : OrbitConfig :=
  {| semiMajorAxis := R_E + Fin 1600000;
     eccentricity := None;
     inclination := Fin 47 * Math_PI / Fin 180;
     area := Fin 1.5;
     mass := Fin 200;
     dragCoeff := None;
     revolutions := Some 500%nat |}.

(** Two variations on Echo I used as examples below: released at an
    altitude of 150 km for two revolutions, and with its drag area set to
    zero for three revolutions. *)
Definition echoI_low : OrbitConfig :=
  {| semiMajorAxis := R_E + Fin 150000;
     eccentricity := None;
     inclination := Fin 47 * Math_PI / Fin 180;
     area := Fin 400;
     mass := Fin 75;
     dragCoeff := None;
     revolutions := Some 2%nat |}.

(** A configuration with its revolution count replaced. *)
Definition with_revolutions (cfg : OrbitConfig) (n : nat) : OrbitConfig :=
  {| semiMajorAxis := semiMajorAxis cfg;
     eccentricity := eccentricity cfg;
     inclination := inclination cfg;
     area := area cfg;
     mass := mass cfg;
     dragCoeff := dragCoeff cfg;
     revolutions := Some n |}.

Definition echoI_no_drag : OrbitConfig :=
  {| semiMajorAxis := R_E + Fin 1600000;
     eccentricity := None;
     inclination := Fin 47 * Math_PI / Fin 180;
     area := Fin 0;
     mass := Fin 75;
     dragCoeff := None;
     revolutions := Some 3%nat |}.

End EchoI.

(** ** The reentry module: flight-path angle of a reentry vehicle *)

(** Instrumentation: a computation that also records, in evaluation order,
    the divisor of every division it performs. *)
Module Trace.

Definition traced (A : Type) : Type := (A * list number)%type.

Definition ret {A} (v : A) : traced A := (v, []).

Definition bind {A B} (c : traced A) (k : A -> traced B) : traced B :=
  let (v, ds) := c in
  let (w, ds') := k v in
  (w, ds ++ ds').

Definition divide (x y : number) : traced number := ((x / y)%js, [y]).

Definition value {A} (c : traced A) : A := fst c.
Definition divisors {A} (c : traced A) : list number := snd c.

End Trace.

Notation "x <- c ;; k" := (Trace.bind c (fun x => k))
  (at level 61, c at next level, right associativity).

Module Reentry.
Local Open Scope js_scope.

Definition EARTH_RADIUS : number := Fin 6371000.
Definition MU : number := Fin 3.986004418e14.
Definition G0 : number := Fin 9.80665.
Definition RHO_0 : number := Fin 1.225.
Definition H_SCALE : number := Fin 7200.

Definition atmosphericDensity (altitude : number) : number :=
  RHO_0 * Math_exp ((- altitude) / H_SCALE).

Definition dragForce (rho velocity Cd area : number) : number :=
  Fin 0.5 * rho * velocity * velocity * Cd * area.

Definition liftForce (rho velocity Cl area : number) : number :=
  Fin 0.5 * rho * velocity * velocity * Cl * area.

Definition gravity (altitude : number) : number :=
  let r := EARTH_RADIUS + altitude in
  MU / (r * r).

(** The fields of the object argument are passed one by one; [bankAngle]
    may be left out and then defaults to 0. *)
Definition flightPathAngleRate
  (lift mass velocity altitude gamma : number) (bankAngle : option number)
  : number :=
  let bankAngle := with_default (Fin 0) bankAngle in
  let r := EARTH_RADIUS + altitude in
  let g := gravity altitude in
  let liftTerm := (lift / (mass * velocity)) * Math_cos bankAngle in
  let gravityTerm := (velocity / r - g / velocity) * Math_cos gamma in
  liftTerm + gravityTerm.

Definition approximateFlightPathAngle
  (gamma0 drag mass velocity deltaTime : number) : number :=
  gamma0 - (drag / (mass * velocity)) * deltaTime.

Definition ballisticCoefficient (mass Cd area : number) : number :=
  mass / (Cd * area).

Definition deceleration (drag mass : number) : number :=
  drag / mass.

Record State : Type := {
  gamma : number;
  velocity : number;
  altitude : number
}.

Record Vehicle : Type := {
  mass : number;
  Cd : number;
  Cl : number;
  area : number;
  bankAngle : option number
}.

Definition reentryStep (state : State) (vehicle : Vehicle) (dt : number) : State :=
  let rho := atmosphericDensity (altitude state) in
  let drag := dragForce rho (velocity state) (Cd vehicle) (area vehicle) in
  let lift := liftForce rho (velocity state) (Cl vehicle) (area vehicle) in
  let gammaDot :=
    flightPathAngleRate lift (mass vehicle) (velocity state) (altitude state)
                        (gamma state) (bankAngle vehicle) in
  {| gamma := gamma state + gammaDot * dt;
     velocity := velocity state - (drag / mass vehicle) * dt;
     altitude := altitude state + velocity state * Math_sin (gamma state) * dt |}.

(** *** The same functions, instrumented

    Each function that divides is repeated with [Trace.divide] at every
    division of the source, so that the divisors of a step can be listed. *)

Definition atmosphericDensity_traced (altitude : number) : Trace.traced number :=
  q <- Trace.divide (- altitude) H_SCALE ;;
  Trace.ret (RHO_0 * Math_exp q).

Definition gravity_traced (altitude : number) : Trace.traced number :=
  let r := EARTH_RADIUS + altitude in
  Trace.divide MU (r * r).

Definition flightPathAngleRate_traced
  (lift mass velocity altitude gamma : number) (bankAngle : option number)
  : Trace.traced number :=
  let bankAngle := with_default (Fin 0) bankAngle in
  let r := EARTH_RADIUS + altitude in
  g <- gravity_traced altitude ;;
  q1 <- Trace.divide lift (mass * velocity) ;;
  let liftTerm := q1 * Math_cos bankAngle in
  q2 <- Trace.divide velocity r ;;
  q3 <- Trace.divide g velocity ;;
  let gravityTerm := (q2 - q3) * Math_cos gamma in
  Trace.ret (liftTerm + gravityTerm).

Definition reentryStep_traced (state : State) (vehicle : Vehicle) (dt : number)
  : Trace.traced State :=
  rho <- atmosphericDensity_traced (altitude state) ;;
  let drag := dragForce rho (velocity state) (Cd vehicle) (area vehicle) in
  let lift := liftForce rho (velocity state) (Cl vehicle) (area vehicle) in
  gammaDot <-
    flightPathAngleRate_traced lift (mass vehicle) (velocity state)
      (altitude state) (gamma state) (bankAngle vehicle) ;;
  q <- Trace.divide drag (mass vehicle) ;;
  Trace.ret
    {| gamma := gamma state + gammaDot * dt;
       velocity := velocity state - q * dt;
       altitude := altitude state + velocity state * Math_sin (gamma state) * dt |}.

(** *** The step as the specification words it

    Section 4.4 of the specification: density, then drag and lift from the
    squared velocity, the rate from [r] and [g = mu / r^2], then the three
    updates, the altitude one from the values before the update. *)
Definition spec_reentryStep (state : State) (vehicle : Vehicle) (dt : number)
  : State :=
  let V := velocity state in
  let rho := atmosphericDensity (altitude state) in
  let drag := Fin 0.5 * rho * Math_pow V 2 * Cd vehicle * area vehicle in
  let lift := Fin 0.5 * rho * Math_pow V 2 * Cl vehicle * area vehicle in
  let r := EARTH_RADIUS + altitude state in
  let g := MU / Math_pow r 2 in
  let gammaDot :=
    (lift / (mass vehicle * V)) * Math_cos (with_default (Fin 0) (bankAngle vehicle))
    + (V / r - g / V) * Math_cos (gamma state) in
  {| gamma := gamma state + gammaDot * dt;
     velocity := V - (drag / mass vehicle) * dt;
     altitude := altitude state + V * Math_sin (gamma state) * dt |}.

(** Inputs used as examples below: a vehicle without aerodynamic
    coefficients flying level at sea level, and a vehicle with drag only
    climbing vertically. *)
Definition level_state : State :=
  {| gamma := Fin 0; velocity := Fin 1; altitude := Fin 0 |}.
Definition inert_vehicle : Vehicle :=
  {| mass := Fin 1; Cd := Fin 0; Cl := Fin 0; area := Fin 1; bankAngle := None |}.
Definition vertical_state : State :=
  {| gamma := Math_PI / Fin 2; velocity := Fin 1; altitude := Fin 0 |}.
Definition blunt_vehicle : Vehicle :=
  {| mass := Fin 1; Cd := Fin 1; Cl := Fin 0; area := Fin 1; bankAngle := None |}.
(** A state at the centre of the Earth, moving. *)
Definition centre_state : State :=
  {| gamma := Fin 0; velocity := Fin 1; altitude := Fin (-6371000) |}.

Definition finite_state (s : State) : Prop :=
  is_finite (gamma s) /\ is_finite (velocity s) /\ is_finite (altitude s).

Definition finite_vehicle (v : Vehicle) : Prop :=
  is_finite (mass v) /\ is_finite (Cd v) /\ is_finite (Cl v) /\
  is_finite (area v) /\
  match bankAngle v with Some b => is_finite b | None => True end.

(** The altitude a step would give if its last line read the velocity and
    the angle it has just computed. *)
Definition altitude_from_updated (state : State) (vehicle : Vehicle) (dt : number)
  : number :=
  let next := reentryStep state vehicle dt in
  altitude state + velocity next * Math_sin (gamma next) * dt.

End Reentry.

(* ================================================================= *)
(** * Part II: properties *)
(* ================================================================= *)

(** ** Arithmetic of JavaScript numbers *)

Module JSFacts.

(** Case analysis on the decisions left in the goal or a hypothesis. *)
Ltac decide_reals :=
  repeat match goal with
    | |- context [Req_dec_T ?x ?y] => destruct (Req_dec_T x y)
    | |- context [Rlt_dec ?x ?y] => destruct (Rlt_dec x y)
    | |- context [Rle_dec ?x ?y] => destruct (Rle_dec x y)
    | H : context [Req_dec_T ?x ?y] |- _ => destruct (Req_dec_T x y)
    | H : context [Rlt_dec ?x ?y] |- _ => destruct (Rlt_dec x y)
    | H : context [Rle_dec ?x ?y] |- _ => destruct (Rle_dec x y)
    end.

Ltac js_arith :=
  unfold sub, signed_inf in *; simpl in *; decide_reals;
  try reflexivity; try discriminate; try (exfalso; lra); try (exfalso; nra).

(** Evaluation of the total operations on finite numbers. *)
Ltac js_fin :=
  cbn [JS.add JS.sub JS.mul JS.neg Math_pow Math_cos Math_sin Math_exp
       Math_abs with_default].

Lemma div_Fin (x y : R) : y <> 0 -> (Fin x / Fin y)%js = Fin (x / y).
Proof. intros Hy. simpl. destruct (Req_dec_T y 0); [contradiction | reflexivity]. Qed.

Lemma div_Fin_zero (x : R) : (Fin x / Fin 0)%js = signed_inf x.
Proof. simpl. destruct (Req_dec_T 0 0); [reflexivity | contradiction]. Qed.

Lemma signed_inf_zero : signed_inf 0 = NaN.
Proof. js_arith. Qed.

Lemma signed_inf_pos (x : R) : 0 < x -> signed_inf x = PInf.
Proof. intros Hx. js_arith. Qed.

Lemma signed_inf_neg (x : R) : x < 0 -> signed_inf x = NInf.
Proof. intros Hx. js_arith. Qed.

Lemma signed_inf_not_Fin (x r : R) : signed_inf x <> Fin r.
Proof. js_arith. Qed.

Lemma sqrt_Fin (x : R) : 0 <= x -> Math_sqrt (Fin x) = Fin (sqrt x).
Proof. intros Hx. js_arith. Qed.

Lemma sqrt_Fin_neg (x : R) : x < 0 -> Math_sqrt (Fin x) = NaN.
Proof. intros Hx. js_arith. Qed.

Lemma ltb_Fin (x y : R) : (Fin x <? Fin y)%js = true <-> x < y.
Proof. simpl. destruct (Rlt_dec x y); split; intros; try easy. Qed.

Lemma gtb_Fin (x y : R) : (Fin x >? Fin y)%js = true <-> y < x.
Proof. unfold gtb. apply ltb_Fin. Qed.

Lemma geb_Fin (x y : R) : (Fin x >=? Fin y)%js = true <-> y <= x.
Proof. unfold geb. simpl. destruct (Rle_dec y x); split; intros; try easy. Qed.

Lemma geb_Fin_false (x y : R) : (Fin x >=? Fin y)%js = false <-> x < y.
Proof.
  unfold geb. simpl. destruct (Rle_dec y x); split; intros; try easy; lra.
Qed.

Lemma gtb_Fin_false (x y : R) : (Fin x >? Fin y)%js = false <-> x <= y.
Proof.
  unfold gtb. simpl. destruct (Rlt_dec y x); split; intros; try easy; lra.
Qed.

Lemma add_0_l (a : number) : (Fin 0 + a)%js = a.
Proof. destruct a; simpl; try reflexivity. f_equal. lra. Qed.

Lemma sub_0_r (a : number) : (a - Fin 0)%js = a.
Proof. destruct a; unfold sub; simpl; try reflexivity. f_equal. lra. Qed.

(** [NaN] is absorbing. *)
Lemma mul_NaN_r (x : number) : (x * NaN)%js = NaN.
Proof. now destruct x. Qed.

Lemma div_NaN_r (x : number) : (x / NaN)%js = NaN.
Proof. now destruct x. Qed.

Lemma add_NaN_r (x : number) : (x + NaN)%js = NaN.
Proof. now destruct x. Qed.

Lemma pow_2 (a : number) : Math_pow a 2 = (a * a)%js.
Proof. destruct a; simpl; try reflexivity. f_equal. lra. Qed.

Lemma mul_square (x v : number) : (x * v * v = x * Math_pow v 2)%js.
Proof.
  destruct x as [x| | |], v as [v| | |]; simpl; try reflexivity;
    unfold signed_inf; decide_reals; simpl; unfold signed_inf; decide_reals;
    try reflexivity; try (f_equal; lra); try (exfalso; nra).
Qed.

Lemma Rdiv_gt_1 (a b : R) : 0 < b -> (1 < a / b <-> b < a).
Proof.
  intros Hb. pose proof (Rinv_0_lt_compat b Hb) as Hi.
  assert (Hr : b * / b = 1) by (apply Rinv_r; lra).
  unfold Rdiv. split; intros H; nra.
Qed.

Lemma PI_neq_0 : PI <> 0.
Proof. pose proof PI_RGT_0. lra. Qed.

Lemma PI_gt_3 : 3 < PI.
Proof. pose proof PI2_3_2. lra. Qed.

End JSFacts.

(** ** Launch azimuth *)

Module AzimuthFacts.
Import JSFacts Azimuth.

Lemma degToRad_Fin (d : R) : degToRad (Fin d) = Fin (d * PI / 180).
Proof. unfold degToRad, Math_PI. simpl JS.mul. apply div_Fin. lra. Qed.

Lemma radToDeg_Fin (r : R) : radToDeg (Fin r) = Fin (r * 180 / PI).
Proof. unfold radToDeg, Math_PI. simpl JS.mul. apply div_Fin, PI_neq_0. Qed.

Lemma computeLaunchAzimuth_unfold (lat inc : R) :
  computeLaunchAzimuth (Fin lat) (Fin inc) =
  if (Math_abs (cos_ratio lat inc) >? Fin 1)%js then Throw DomainError
  else Return (radToDeg (Math_acos (cos_ratio lat inc))).
Proof. reflexivity. Qed.

Lemma cos_ratio_Fin (lat inc : R) :
  cos (lat * PI / 180) <> 0 ->
  cos_ratio lat inc = Fin (cos (inc * PI / 180) / cos (lat * PI / 180)).
Proof.
  intros H. unfold cos_ratio. rewrite !degToRad_Fin. simpl Math_cos.
  now apply div_Fin.
Qed.

Lemma cos_ratio_zero (lat inc : R) :
  cos (lat * PI / 180) = 0 ->
  cos_ratio lat inc = signed_inf (cos (inc * PI / 180)).
Proof.
  intros H. unfold cos_ratio. rewrite !degToRad_Fin. simpl Math_cos.
  rewrite H. apply div_Fin_zero.
Qed.

(** The call throws exactly when the cosine of the latitude is smaller in
    magnitude than the cosine of the inclination. *)
Lemma computeLaunchAzimuth_throws_iff (lat inc : R) :
  computeLaunchAzimuth (Fin lat) (Fin inc) = Throw DomainError <->
  Rabs (cos (lat * PI / 180)) < Rabs (cos (inc * PI / 180)).
Proof.
  rewrite computeLaunchAzimuth_unfold.
  destruct (Req_dec_T (cos (lat * PI / 180)) 0) as [Hz | Hnz].
  - rewrite (cos_ratio_zero _ _ Hz), Hz, Rabs_R0. unfold signed_inf.
    destruct (Req_dec_T (cos (inc * PI / 180)) 0) as [Hi | Hi].
    + rewrite Hi, Rabs_R0. simpl. split; [discriminate | lra].
    + assert (0 < Rabs (cos (inc * PI / 180))) by now apply Rabs_pos_lt.
      destruct (Rlt_dec 0 (cos (inc * PI / 180))); simpl;
        (split; [intros _; assumption | reflexivity]).
  - rewrite (cos_ratio_Fin _ _ Hnz). simpl Math_abs.
    assert (Hpos : 0 < Rabs (cos (lat * PI / 180))) by now apply Rabs_pos_lt.
    assert (Hq : Rabs (cos (inc * PI / 180) / cos (lat * PI / 180)) =
                 Rabs (cos (inc * PI / 180)) / Rabs (cos (lat * PI / 180))).
    { unfold Rdiv. rewrite Rabs_mult, Rabs_inv. reflexivity. }
    rewrite Hq.
    assert (Hiff : 1 < Rabs (cos (inc * PI / 180)) / Rabs (cos (lat * PI / 180))
                   <-> Rabs (cos (lat * PI / 180)) < Rabs (cos (inc * PI / 180))).
    { apply Rdiv_gt_1; assumption. }
    destruct (Fin _ >? Fin 1)%js eqn:E.
    + apply gtb_Fin in E. split; [intros _; now apply Hiff | reflexivity].
    + apply gtb_Fin_false in E.
      split; [discriminate | intros H; apply Hiff in H; lra].
Qed.

(** Cosine of an angle in degrees depends on its magnitude only. *)
Lemma cos_deg_abs (d : R) : cos (d * PI / 180) = cos (Rabs d * PI / 180).
Proof.
  unfold Rabs. destruct (Rcase_abs d); [|reflexivity].
  replace (- d * PI / 180) with (- (d * PI / 180)) by lra.
  now rewrite cos_neg.
Qed.

Lemma deg_range (d : R) :
  Rabs d <= 90 -> 0 <= Rabs d * PI / 180 <= PI / 2.
Proof.
  intros H. pose proof (Rabs_pos d). pose proof PI_RGT_0. split; nra.
Qed.

Lemma cos_deg_nonneg (d : R) : Rabs d <= 90 -> 0 <= cos (d * PI / 180).
Proof.
  intros H. rewrite cos_deg_abs. destruct (deg_range d H) as [H0 H1].
  pose proof PI_RGT_0 as Hpi. apply cos_ge_0; lra.
Qed.

(** Within a quarter turn, a smaller cosine is a larger magnitude. *)
Lemma cos_deg_lt_iff (lat inc : R) :
  Rabs lat <= 90 -> Rabs inc <= 90 ->
  (cos (lat * PI / 180) < cos (inc * PI / 180) <-> Rabs inc < Rabs lat).
Proof.
  intros Hl Hi. rewrite (cos_deg_abs lat), (cos_deg_abs inc).
  destruct (deg_range lat Hl) as [Hl0 Hl1], (deg_range inc Hi) as [Hi0 Hi1].
  pose proof PI_RGT_0 as Hpi.
  split; intros H.
  - apply cos_decreasing_0 in H; try lra. nra.
  - apply cos_decreasing_1; try lra. nra.
Qed.

Lemma Rabs_le_90 (d : R) : -90 <= d <= 90 -> Rabs d <= 90.
Proof. intros H. apply Rabs_le. lra. Qed.

Lemma computeLaunchAzimuth_returns (lat inc : R) :
  cos (lat * PI / 180) <> 0 ->
  Rabs (cos (inc * PI / 180) / cos (lat * PI / 180)) <= 1 ->
  computeLaunchAzimuth (Fin lat) (Fin inc) =
  Return (Fin (acos (cos (inc * PI / 180) / cos (lat * PI / 180)) * 180 / PI)).
Proof.
  intros Hnz Hle. rewrite computeLaunchAzimuth_unfold, (cos_ratio_Fin _ _ Hnz).
  simpl Math_abs. apply gtb_Fin_false in Hle. rewrite Hle.
  apply gtb_Fin_false in Hle. unfold Math_acos.
  destruct (Rlt_dec 1 _); [lra|]. now rewrite radToDeg_Fin.
Qed.

(** An inclination of 28 degrees cannot be reached from 30 degrees of
    latitude: the call throws. *)
Lemma computeLaunchAzimuth_30_28 :
  computeLaunchAzimuth (Fin 30) (Fin 28) = Throw DomainError.
Proof.
  apply computeLaunchAzimuth_throws_iff.
  assert (H30 : Rabs 30 <= 90) by (apply Rabs_le_90; lra).
  assert (H28 : Rabs 28 <= 90) by (apply Rabs_le_90; lra).
  rewrite !Rabs_pos_eq by now apply cos_deg_nonneg.
  apply cos_deg_lt_iff; try assumption.
  rewrite !Rabs_pos_eq; lra.
Qed.

(** Every infeasible request within a quarter turn makes the composed entry
    point throw: the [feasible] field is never reached. *)
Lemma runAzimuthSimulation_infeasible_throws (lat inc : R) (t : option number) :
  Rabs lat <= 90 -> Rabs inc < Rabs lat ->
  runAzimuthSimulation
    {| latitudeDeg := Fin lat; inclinationDeg := Fin inc; timeSinceEpochMin := t |}
  = Throw DomainError.
Proof.
  intros Hl Hi. unfold runAzimuthSimulation. simpl latitudeDeg. simpl inclinationDeg.
  assert (Hi' : Rabs inc <= 90) by lra.
  assert (Ht : computeLaunchAzimuth (Fin lat) (Fin inc) = Throw DomainError).
  { apply computeLaunchAzimuth_throws_iff.
    rewrite !Rabs_pos_eq by now apply cos_deg_nonneg.
    now apply cos_deg_lt_iff. }
  now rewrite Ht.
Qed.

(** Beyond a quarter turn an infeasible request can pass the cosine test:
    from latitude 180 the call returns, with [feasible] false. *)
Lemma runAzimuthSimulation_180_0 :
  runAzimuthSimulation
    {| latitudeDeg := Fin 180; inclinationDeg := Fin 0; timeSinceEpochMin := None |}
  = Return {| azimuthDeg := Fin 180; longitudeShiftDeg := Fin 0; feasible := false |}.
Proof.
  assert (Hc180 : cos (180 * PI / 180) = -1).
  { replace (180 * PI / 180) with PI by lra. apply cos_PI. }
  assert (Hc0 : cos (0 * PI / 180) = 1).
  { replace (0 * PI / 180) with 0 by lra. apply cos_0. }
  unfold runAzimuthSimulation. simpl latitudeDeg. simpl inclinationDeg.
  rewrite computeLaunchAzimuth_returns; rewrite ?Hc180, ?Hc0.
  - replace (1 / -1) with (Ropp 1) by lra.
    rewrite acos_opp, acos_1. simpl JS.bind.
    unfold computeEarthRotationLongitude, EARTH_ROT_RATE, isInclinationReachable.
    simpl. destruct (Rle_dec (Rabs 180) (Rabs 0)) as [H|H].
    + rewrite Rabs_R0, Rabs_pos_eq in H; lra.
    + do 2 f_equal; f_equal; field; apply PI_neq_0.
  - lra.
  - apply Rabs_le. lra.
Qed.



(** C8: a polar launch from the equator has azimuth exactly 90 degrees, a
    launch into the inclination equal to the latitude 28.5 has azimuth
    exactly 0, and inclination 28 from latitude 30 throws the domain
    error. *)
Theorem computeLaunchAzimuth_examples :
  computeLaunchAzimuth (Fin 0) (Fin 90) = Return (Fin 90) /\
  computeLaunchAzimuth (Fin 28.5) (Fin 28.5) = Return (Fin 0) /\
  computeLaunchAzimuth (Fin 30) (Fin 28) = Throw DomainError.
Proof.
  split; [|split].
  - assert (Hc0 : cos (0 * PI / 180) = 1).
    { replace (0 * PI / 180) with 0 by lra. apply cos_0. }
    assert (Hc90 : cos (90 * PI / 180) = 0).
    { replace (90 * PI / 180) with (PI / 2) by lra. apply cos_PI2. }
    rewrite computeLaunchAzimuth_returns; rewrite ?Hc0, ?Hc90.
    + replace (0 / 1) with 0 by lra. rewrite acos_0.
      do 2 f_equal. field. apply PI_neq_0.
    + lra.
    + apply Rabs_le. lra.
  - assert (Hpos : 0 < cos (28.5 * PI / 180)).
    { pose proof PI_RGT_0. apply cos_gt_0; lra. }
    rewrite computeLaunchAzimuth_returns.
    + replace (cos (28.5 * PI / 180) / cos (28.5 * PI / 180)) with 1
        by (field; lra).
      rewrite acos_1. do 2 f_equal. field. apply PI_neq_0.
    + lra.
    + replace (cos (28.5 * PI / 180) / cos (28.5 * PI / 180)) with 1
        by (field; lra).
      rewrite Rabs_R1. lra.
  - exact computeLaunchAzimuth_30_28.
Qed.

(** C1, at the input latitude 30, inclination 28: the composed entry point
    calls [computeLaunchAzimuth] before it looks at feasibility, so the
    domain error reaches the caller and no result record is built. *)
Theorem runAzimuthSimulation_30_28_throws :
  runAzimuthSimulation
    {| latitudeDeg := Fin 30; inclinationDeg := Fin 28; timeSinceEpochMin := None |}
  = Throw DomainError
  /\ isInclinationReachable (Fin 30) (Fin 28) = false.
Proof.
  split.
  - unfold runAzimuthSimulation. simpl latitudeDeg. simpl inclinationDeg.
    now rewrite computeLaunchAzimuth_30_28.
  - unfold isInclinationReachable. simpl Math_abs. apply geb_Fin_false.
    rewrite !Rabs_pos_eq; lra.
Qed.

End AzimuthFacts.

(** ** Echo I orbit propagation *)

Module EchoIFacts.
Import JSFacts EchoI.

Lemma DEG_Fin : DEG = Fin (180 / PI).
Proof. unfold DEG, Math_PI. apply div_Fin, PI_neq_0. Qed.

Lemma DEG_pos : 0 < 180 / PI.
Proof. apply Rdiv_lt_0_compat; [lra | apply PI_RGT_0]. Qed.

(** *** Evaluation on a positive real semi-major axis *)

Lemma meanMotion_Fin (r : R) :
  0 < r -> meanMotion (Fin r) = Fin (sqrt (mu / r ^ 3)) /\ 0 < sqrt (mu / r ^ 3).
Proof.
  intros Hr. assert (H3 : 0 < r ^ 3) by (apply pow_lt; exact Hr).
  assert (Hq : 0 < mu / r ^ 3) by (apply Rdiv_lt_0_compat; [unfold mu; lra | exact H3]).
  split; [| now apply sqrt_lt_R0].
  unfold meanMotion, MU, Math_pow. rewrite div_Fin by lra.
  apply sqrt_Fin. fold mu. lra.
Qed.

Lemma orbitalPeriod_Fin (r : R) :
  0 < r ->
  orbitalPeriod (Fin r) = Fin (2 * PI / sqrt (mu / r ^ 3)) /\
  0 < 2 * PI / sqrt (mu / r ^ 3).
Proof.
  intros Hr. destruct (meanMotion_Fin r Hr) as [Hn Hpos].
  split.
  - unfold orbitalPeriod. rewrite Hn. unfold Math_PI. simpl JS.mul.
    apply div_Fin. lra.
  - apply Rdiv_lt_0_compat; [pose proof PI_RGT_0; lra | exact Hpos].
Qed.

Lemma raanDriftRate_Fin (r e i : R) :
  0 < r -> e * e <> 1 ->
  raanDriftRate (Fin r) (Fin e) (Fin i) =
  Fin (-1.5 * j2 * (r_e / r) ^ 2 * (sqrt (mu / r ^ 3) * cos i) / (1 - e * e) ^ 2).
Proof.
  intros Hr He. destruct (meanMotion_Fin r Hr) as [Hn _].
  unfold raanDriftRate. rewrite Hn. unfold R_E, J2.
  rewrite (div_Fin _ r) by lra. js_fin.
  rewrite div_Fin; [reflexivity | apply pow_nonzero; lra].
Qed.

Lemma perigeeDriftRate_Fin (r e i : R) :
  0 < r -> e * e <> 1 ->
  perigeeDriftRate (Fin r) (Fin e) (Fin i) =
  Fin (0.75 * j2 * (r_e / r) ^ 2 * (sqrt (mu / r ^ 3) * (5 * cos i ^ 2 - 1))
       / (1 - e * e) ^ 2).
Proof.
  intros Hr He. destruct (meanMotion_Fin r Hr) as [Hn _].
  unfold perigeeDriftRate. rewrite Hn. unfold R_E, J2.
  rewrite (div_Fin _ r) by lra. js_fin.
  rewrite div_Fin; [reflexivity | apply pow_nonzero; lra].
Qed.

Lemma echoi_atmosphericDensity_Fin (h : R) :
  atmosphericDensity (Fin h) = Fin (1.225 * exp (- h / 8500)).
Proof.
  unfold atmosphericDensity, RHO_0, SCALE_HEIGHT. js_fin.
  rewrite div_Fin by lra. reflexivity.
Qed.

Lemma semiMajorAxisDecay_Fin (r A m c : R) :
  0 < r -> m <> 0 ->
  semiMajorAxisDecay (Fin r) (Fin A) (Fin m) (Fin c) =
  Fin (- c * (A / m) * (1.225 * exp (- (r - r_e) / 8500)) * sqrt (mu * r)).
Proof.
  intros Hr Hm. unfold semiMajorAxisDecay, R_E, MU. js_fin.
  rewrite echoi_atmosphericDensity_Fin, (div_Fin A m Hm). js_fin.
  rewrite sqrt_Fin by nra. js_fin. reflexivity.
Qed.

Lemma semiMajorAxisDecay_no_area (r m c : R) :
  0 < r -> m <> 0 ->
  semiMajorAxisDecay (Fin r) (Fin 0) (Fin m) (Fin c) = Fin 0.
Proof.
  intros Hr Hm. rewrite semiMajorAxisDecay_Fin by assumption.
  f_equal. unfold Rdiv. ring.
Qed.

(** *** The loop and its history *)

Lemma history_loop (cfg : OrbitConfig) (k : nat) :
  forall st, history (loop cfg k st) = history st ++ pushed cfg k st.
Proof.
  induction k as [|k IH]; intros st; simpl.
  - now rewrite app_nil_r.
  - rewrite IH. simpl history. now rewrite <- app_assoc.
Qed.

Lemma propagateOrbit_pushed (cfg : OrbitConfig) :
  propagateOrbit cfg = pushed cfg (get_revolutions cfg) (initial cfg).
Proof. unfold propagateOrbit. now rewrite history_loop. Qed.

Lemma pushed_length (cfg : OrbitConfig) (k : nat) :
  forall st, List.length (pushed cfg k st) = k.
Proof. induction k as [|k IH]; intros st; simpl; [reflexivity | now rewrite IH]. Qed.

(** *** Runs without drag *)

Section NoDrag.
Variable cfg : OrbitConfig.
Variables r0 m c : R.
Hypothesis axis : semiMajorAxis cfg = Fin r0.
Hypothesis axis_pos : 0 < r0.
Hypothesis no_area : area cfg = Fin 0.
Hypothesis mass_fin : mass cfg = Fin m.
Hypothesis mass_nz : m <> 0.
Hypothesis drag_fin : get_dragCoeff cfg = Fin c.

Lemma revolution_no_drag (st : Vars) :
  a st = Fin r0 ->
  a (revolution cfg st) = Fin r0 /\
  Omega (revolution cfg st) = (Omega st + raan_drift cfg)%js /\
  omega (revolution cfg st) = (omega st + perigee_drift cfg)%js /\
  N (revolution cfg st) = S (N st).
Proof.
  intros Ha. unfold revolution, raan_drift, perigee_drift. cbn [a Omega omega N].
  rewrite Ha, axis, no_area, mass_fin, drag_fin.
  rewrite (semiMajorAxisDecay_no_area r0 m c axis_pos mass_nz).
  destruct (orbitalPeriod_Fin r0 axis_pos) as [HT _].
  repeat split. rewrite HT. js_fin. f_equal. ring.
Qed.

Lemma pushed_no_drag (k : nat) :
  forall st j s,
    a st = Fin r0 ->
    Omega st = accumulated (N st) (raan_drift cfg) ->
    omega st = accumulated (N st) (perigee_drift cfg) ->
    nth_error (pushed cfg k st) j = Some s ->
    Snapshot.orbit s = (N st + j)%nat /\
    Snapshot.semiMajorAxis s = Fin r0 /\
    Snapshot.raanDeg s = (accumulated (S (N st + j)) (raan_drift cfg) * DEG)%js /\
    Snapshot.perigeeDeg s = (accumulated (S (N st + j)) (perigee_drift cfg) * DEG)%js.
Proof.
  induction k as [|k IH]; intros st j s Ha HO Ho Hnth.
  - destruct j; discriminate.
  - destruct (revolution_no_drag st Ha) as (Ha' & HO' & Ho' & HN').
    cbn [pushed] in Hnth. cbv zeta in Hnth.
    remember (revolution cfg st) as st' eqn:Est'.
    destruct j as [|j]; cbn [nth_error] in Hnth.
    + injection Hnth as <-. cbn [Snapshot.orbit Snapshot.semiMajorAxis
        Snapshot.raanDeg Snapshot.perigeeDeg].
      rewrite Nat.add_0_r, Ha', HO', Ho', HO, Ho. now repeat split.
    + replace (N st + S j)%nat with (N st' + j)%nat by (rewrite HN'; lia).
      apply IH; try assumption.
      * rewrite HO', HN', HO. reflexivity.
      * rewrite Ho', HN', Ho. reflexivity.
Qed.

End NoDrag.

(** *** Drift of the node *)

(** The change of the RAAN accumulator over one revolution at semi-major
    axis [r]: drift rate times period. *)
Lemma revolution_raan (cfg : OrbitConfig) (st : Vars) (r w e0 i0 : R) :
  get_eccentricity cfg = Fin e0 -> 0 <= e0 < 1 ->
  inclination cfg = Fin i0 ->
  a st = Fin r -> 0 < r -> Omega st = Fin w ->
  exists d, Omega (revolution cfg st) = Fin (w + d) /\
            (0 < cos i0 -> d < 0) /\ (cos i0 < 0 -> 0 < d).
Proof.
  intros He Hrange Hi Ha Hr HO.
  assert (He2 : e0 * e0 <> 1) by nra.
  destruct (meanMotion_Fin r Hr) as [_ Hn].
  destruct (orbitalPeriod_Fin r Hr) as [HT HTpos].
  unfold revolution. cbn [Omega]. rewrite Ha, HO, He, Hi, HT.
  rewrite (raanDriftRate_Fin r e0 i0 Hr He2). js_fin.
  eexists. split; [reflexivity|].
  set (n := sqrt (mu / r ^ 3)) in *.
  set (T := 2 * PI / n) in *.
  assert (HA : 0 < (r_e / r) ^ 2).
  { apply pow_lt. apply Rdiv_lt_0_compat; [unfold r_e; lra | exact Hr]. }
  assert (HB : 0 < / (1 - e0 * e0) ^ 2).
  { apply Rinv_0_lt_compat, pow_lt. nra. }
  assert (HK : 0 < 1.5 * j2 * (r_e / r) ^ 2 * n * / (1 - e0 * e0) ^ 2 * T).
  { assert (Hj : 0 < 1.5 * j2) by (unfold j2; lra).
    pose proof (Rmult_lt_0_compat _ _ Hj HA) as H1.
    pose proof (Rmult_lt_0_compat _ _ H1 Hn) as H2.
    pose proof (Rmult_lt_0_compat _ _ H2 HB) as H3.
    exact (Rmult_lt_0_compat _ _ H3 HTpos). }
  replace (-1.5 * j2 * (r_e / r) ^ 2 * (n * cos i0) / (1 - e0 * e0) ^ 2 * T)
    with (- (1.5 * j2 * (r_e / r) ^ 2 * n * / (1 - e0 * e0) ^ 2 * T) * cos i0)
    by (replace (-1.5) with (- (1.5)) by lra; unfold Rdiv; ring).
  split; intros Hc; nra.
Qed.

Section Chain.
Variable cfg : OrbitConfig.
Variables e0 i0 : R.
Hypothesis ecc : get_eccentricity cfg = Fin e0.
Hypothesis ecc_range : 0 <= e0 < 1.
Hypothesis inc : inclination cfg = Fin i0.

(** [rel] is the order the reported angles are claimed to follow and [ok]
    the sign of the drift that makes them follow it. *)
Variable rel : number -> number -> Prop.
Variable ok : R -> Prop.
Hypothesis rel_step :
  forall w d, ok d -> rel (Fin (w * (180 / PI))) (Fin ((w + d) * (180 / PI))).
Hypothesis sign_ok :
  forall d, ((0 < cos i0 -> d < 0) /\ (cos i0 < 0 -> 0 < d)) -> ok d.

Lemma pushed_raan_chain (k : nat) :
  forall st r w,
    a st = Fin r -> 0 < r -> Omega st = Fin w ->
    axis_stays_positive (pushed cfg k st) ->
    Sorted rel (map Snapshot.raanDeg (pushed cfg k st)) /\
    HdRel rel (Fin (w * (180 / PI))) (map Snapshot.raanDeg (pushed cfg k st)).
Proof.
  induction k as [|k IH]; intros st r w Ha Hr HO Hpos.
  - split; constructor.
  - cbn [pushed] in *. cbv zeta in *.
    destruct (revolution_raan cfg st r w e0 i0 ecc ecc_range inc Ha Hr HO)
      as (d & HO' & Hsign).
    remember (revolution cfg st) as st' eqn:Est'.
    apply Forall_cons_iff in Hpos. destruct Hpos as [(r' & Ha' & Hr') Hpos].
    cbn [Snapshot.semiMajorAxis] in Ha'.
    destruct (IH st' r' (w + d) Ha' Hr' HO' Hpos) as [Hsorted Hhd].
    cbn [map Snapshot.raanDeg]. rewrite HO', DEG_Fin. js_fin.
    split.
    + constructor; assumption.
    + constructor. apply rel_step, sign_ok, Hsign.
Qed.

End Chain.

Lemma no_drag_axis_stays_positive (cfg : OrbitConfig) (r0 m c : R) :
  semiMajorAxis cfg = Fin r0 -> 0 < r0 ->
  area cfg = Fin 0 ->
  mass cfg = Fin m -> m <> 0 ->
  get_dragCoeff cfg = Fin c ->
  axis_stays_positive (propagateOrbit cfg).
Proof.
  intros Ha Hr Harea Hm Hmz Hc. rewrite propagateOrbit_pushed.
  apply Forall_forall. intros s Hin.
  apply In_nth_error in Hin. destruct Hin as [j Hj].
  destruct (pushed_no_drag cfg r0 m c Ha Hr Harea Hm Hmz Hc
              (get_revolutions cfg) (initial cfg) j s Ha eq_refl eq_refl Hj)
    as (_ & Hs & _).
  exists r0. now split.
Qed.

(** *** A run that leaves the positive axes *)

Lemma meanMotion_negative (r : R) : r < 0 -> meanMotion (Fin r) = NaN.
Proof.
  intros Hr. assert (H2 : 0 < r * r) by nra.
  assert (H3 : r ^ 3 < 0) by (simpl; nra).
  unfold meanMotion, MU, Math_pow. rewrite div_Fin by lra.
  apply sqrt_Fin_neg. fold mu.
  assert (Hi : / r ^ 3 < 0) by now apply Rinv_lt_0_compat.
  unfold Rdiv, mu. nra.
Qed.

(** Once the semi-major axis is negative the mean motion is [NaN], and so
    is the RAAN accumulator after the revolution. *)
Lemma revolution_negative_axis (cfg : OrbitConfig) (st : Vars) (r : R) :
  a st = Fin r -> r < 0 -> Omega (revolution cfg st) = NaN.
Proof.
  intros Ha Hr. unfold revolution. cbn [Omega].
  rewrite Ha. unfold orbitalPeriod. rewrite (meanMotion_negative r Hr).
  now rewrite div_NaN_r, mul_NaN_r, add_NaN_r.
Qed.

Lemma exp_18_le : exp 18 <= 387420489.
Proof.
  pose proof exp_le_3 as H1. pose proof (exp_pos 1) as P1.
  assert (H2 : exp 2 <= 9).
  { replace 2 with (1 + 1) by lra. rewrite exp_plus. nra. }
  pose proof (exp_pos 2) as P2.
  assert (H4 : exp 4 <= 81).
  { replace 4 with (2 + 2) by lra. rewrite exp_plus. nra. }
  pose proof (exp_pos 4) as P4.
  assert (H8 : exp 8 <= 6561).
  { replace 8 with (4 + 4) by lra. rewrite exp_plus. nra. }
  pose proof (exp_pos 8) as P8.
  assert (H16 : exp 16 <= 43046721).
  { replace 16 with (8 + 8) by lra. rewrite exp_plus. nra. }
  pose proof (exp_pos 16) as P16.
  replace 18 with (16 + 2) by lra. rewrite exp_plus. nra.
Qed.

(** Kepler's third law in the form the decay step uses it. *)
Lemma sqrt_mu_period (r : R) :
  0 < r -> sqrt (mu * r) * (2 * PI / sqrt (mu / r ^ 3)) = 2 * PI * r ^ 2.
Proof.
  intros Hr. assert (H3 : 0 < r ^ 3) by now apply pow_lt.
  assert (Hq : 0 < mu / r ^ 3)
    by (apply Rdiv_lt_0_compat; [unfold mu; lra | exact H3]).
  assert (Hn : 0 < sqrt (mu / r ^ 3)) by now apply sqrt_lt_R0.
  assert (Hs : sqrt (mu * r) = sqrt (mu / r ^ 3) * r ^ 2).
  { rewrite <- (sqrt_pow2 (r ^ 2)) by (apply pow_le; lra).
    rewrite <- sqrt_mult; [f_equal; field; lra | lra | apply pow_le, pow_le; lra]. }
  rewrite Hs. field. lra.
Qed.

Lemma echoI_low_inclination :
  inclination echoI_low = Fin (47 * PI / 180) /\ 0 <= 47 * PI / 180 < PI / 2.
Proof.
  split.
  - unfold echoI_low, inclination, Math_PI. js_fin. apply div_Fin. lra.
  - pose proof PI_RGT_0. lra.
Qed.

(** The semi-major axis after one revolution, on finite inputs: the decay
    over one period is the drag factor times the density times
    [2 PI r^2]. *)
Lemma revolution_axis_Fin (cfg : OrbitConfig) (st : Vars) (r A m c : R) :
  a st = Fin r -> 0 < r ->
  area cfg = Fin A -> mass cfg = Fin m -> m <> 0 ->
  get_dragCoeff cfg = Fin c ->
  a (revolution cfg st) =
  Fin (r - c * (A / m) * (1.225 * exp (- (r - r_e) / 8500)) * (2 * PI * r ^ 2)).
Proof.
  intros Ha Hr HA Hm Hmz Hc.
  destruct (orbitalPeriod_Fin r Hr) as [HT _].
  unfold revolution. cbn [a]. rewrite Ha, HA, Hm, Hc, HT.
  rewrite (semiMajorAxisDecay_Fin r A m c Hr Hmz). js_fin. f_equal.
  rewrite <- (sqrt_mu_period r Hr). ring.
Qed.

(** One revolution of Echo I from 150 km takes the semi-major axis below
    zero. *)
Lemma echoI_low_first_axis :
  exists r1, a (revolution echoI_low (initial echoI_low)) = Fin r1 /\ r1 < 0.
Proof.
  set (r0 := 6378137 + 150000).
  assert (Hr0 : 0 < r0) by (unfold r0; lra).
  assert (Hm : 75 <> 0) by lra.
  eexists. split.
  - apply (revolution_axis_Fin echoI_low (initial echoI_low) r0 400 75 2.2);
      try reflexivity; assumption.
  - set (E := exp (- (r0 - r_e) / 8500)).
    assert (HE : / 387420489 <= E).
    { unfold E. apply Rle_trans with (exp (- (18))).
      - rewrite exp_Ropp. apply Rinv_le_contravar; [apply exp_pos | apply exp_18_le].
      - left. apply exp_increasing. unfold r0, r_e. lra. }
    pose proof PI_gt_3 as Hpi.
    assert (HEP : 3 * / 387420489 <= PI * E) by nra.
    replace (2.2 * (400 / 75) * (1.225 * E) * (2 * PI * r0 ^ 2))
      with (2.2 * (400 / 75) * 1.225 * 2 * r0 * r0 * (PI * E)) by ring.
    assert (Hc : 1 < 2.2 * (400 / 75) * 1.225 * 2 * r0 * (3 * / 387420489))
      by (unfold r0; lra).
    assert (Hpos : 0 < 2.2 * (400 / 75) * 1.225 * 2 * r0) by (unfold r0; lra).
    nra.
Qed.

Lemma echoI_low_second_raan :
  nth_error (map Snapshot.raanDeg (propagateOrbit echoI_low)) 1 = Some NaN.
Proof.
  rewrite propagateOrbit_pushed.
  destruct echoI_low_first_axis as (r1 & Ha1 & Hr1).
  change (get_revolutions echoI_low) with 2%nat.
  cbn [pushed map nth_error Snapshot.raanDeg]. cbv zeta.
  now rewrite (revolution_negative_axis echoI_low _ r1 Ha1 Hr1).
Qed.

(** *** The example run of the source *)

Lemma exp_64_ge : 18446744073709551616 <= exp 64.
Proof.
  assert (H1 : 2 <= exp 1) by (pose proof (exp_ineq1 1); lra).
  assert (H2 : 4 <= exp 2).
  { replace 2 with (1 + 1) by lra. rewrite exp_plus. nra. }
  assert (H4 : 16 <= exp 4).
  { replace 4 with (2 + 2) by lra. rewrite exp_plus. nra. }
  assert (H8 : 256 <= exp 8).
  { replace 8 with (4 + 4) by lra. rewrite exp_plus. nra. }
  assert (H16 : 65536 <= exp 16).
  { replace 16 with (8 + 8) by lra. rewrite exp_plus. nra. }
  assert (H32 : 4294967296 <= exp 32).
  { replace 32 with (16 + 16) by lra. rewrite exp_plus. nra. }
  replace 64 with (32 + 32) by lra. rewrite exp_plus. nra.
Qed.

(** Around 1600 km the balloon loses less than a metre of semi-major axis
    per revolution. *)
Lemma echoI_revolution_axis (st : Vars) (r : R) :
  a st = Fin r -> 7977637 <= r <= 7978137 ->
  exists r', a (revolution echoI st) = Fin r' /\ r - 1 <= r' <= r.
Proof.
  intros Ha Hr. assert (Hpos : 0 < r) by lra. assert (Hm : 75 <> 0) by lra.
  eexists. split.
  - apply (revolution_axis_Fin echoI st r 400 75 2.2); try reflexivity; assumption.
  - set (E := exp (- (r - r_e) / 8500)).
    assert (HE0 : 0 < E) by apply exp_pos.
    assert (HE : E <= / 18446744073709551616).
    { unfold E. apply Rle_trans with (exp (- (64))).
      - left. apply exp_increasing. unfold r_e. lra.
      - rewrite exp_Ropp. apply Rinv_le_contravar; [lra | apply exp_64_ge]. }
    pose proof PI_RGT_0 as Hpi0. pose proof PI_4 as Hpi4.
    assert (Hr2 : 0 < r * r <= 7978137 * 7978137) by nra.
    assert (HPE : 0 < PI * E <= 4 * / 18446744073709551616) by nra.
    replace (2.2 * (400 / 75) * (1.225 * E) * (2 * PI * r ^ 2))
      with (2.2 * (400 / 75) * 1.225 * 2 * ((r * r) * (PI * E))) by ring.
    assert (HP : 0 < r * r * (PI * E)
                 <= 7978137 * 7978137 * (4 * / 18446744073709551616)).
    { split; [nra|]. apply Rmult_le_compat; lra. }
    lra.
Qed.

Lemma echoI_pushed_axis (k : nat) :
  forall st r,
    a st = Fin r -> (N st + k <= 500)%nat ->
    7978137 - INR (N st) <= r <= 7978137 ->
    axis_stays_positive (pushed echoI k st).
Proof.
  induction k as [|k IH]; intros st r Ha HN Hr.
  - constructor.
  - assert (HNr : INR (N st) <= 499).
    { replace 499 with (INR 499) by (simpl; lra). apply le_INR. lia. }
    destruct (echoI_revolution_axis st r Ha) as (r' & Ha' & Hr'); [lra|].
    cbn [pushed]. cbv zeta. constructor.
    + exists r'. cbn [Snapshot.semiMajorAxis]. split; [exact Ha' | lra].
    + apply (IH (revolution echoI st) r' Ha').
      * unfold revolution. cbn [N]. lia.
      * unfold revolution. cbn [N]. rewrite S_INR. lra.
Qed.

Lemma echoI_axis_stays_positive : axis_stays_positive (propagateOrbit echoI).
Proof.
  rewrite propagateOrbit_pushed.
  apply (echoI_pushed_axis 500 (initial echoI) (6378137 + 1600000)).
  - reflexivity.
  - cbn [N initial]. lia.
  - cbn [N initial INR]. lra.
Qed.

Lemma echoI_facts :
  semiMajorAxis echoI = Fin (6378137 + 1600000) /\
  0 < 6378137 + 1600000 /\
  get_eccentricity echoI = Fin 0.0 /\ 0 <= 0.0 < 1 /\
  inclination echoI = Fin (47 * PI / 180) /\
  - (PI / 2) < 47 * PI / 180 < PI / 2.
Proof.
  pose proof PI_RGT_0.
  repeat split; try reflexivity; try lra.
  unfold echoI, inclination, Math_PI. js_fin. apply div_Fin. lra.
Qed.

(** *** The claims on [propagateOrbit] *)

Lemma echoI_no_drag_facts :
  semiMajorAxis echoI_no_drag = Fin (6378137 + 1600000) /\
  0 < 6378137 + 1600000 /\
  area echoI_no_drag = Fin 0 /\
  mass echoI_no_drag = Fin 75 /\ 75 <> 0 /\
  get_dragCoeff echoI_no_drag = Fin 2.2 /\
  get_eccentricity echoI_no_drag = Fin 0.0 /\ 0 <= 0.0 < 1 /\
  inclination echoI_no_drag = Fin (47 * PI / 180) /\
  - (PI / 2) < 47 * PI / 180 < PI / 2.
Proof.
  pose proof PI_RGT_0.
  repeat split; try reflexivity; try lra.
  unfold echoI_no_drag, inclination, Math_PI. js_fin. apply div_Fin. lra.
Qed.






(** C9: whatever the configuration, both accumulators start at 0, and when
    at least one revolution is run the first snapshot reports one
    revolution's drift, rate times period at the initial semi-major axis,
    converted to degrees. *)
Theorem first_snapshot_drift (cfg : OrbitConfig) :
  (Omega (initial cfg) = Fin 0 /\ omega (initial cfg) = Fin 0) /\
  ((1 <= get_revolutions cfg)%nat ->
   exists s rest,
     propagateOrbit cfg = s :: rest /\
     Snapshot.raanDeg s = (raan_drift cfg * DEG)%js /\
     Snapshot.perigeeDeg s = (perigee_drift cfg * DEG)%js).
Proof.
  split; [split; reflexivity|].
  intros Hrev. rewrite propagateOrbit_pushed.
  destruct (get_revolutions cfg) as [|k]; [lia|].
  cbn [pushed]. cbv zeta. eexists. eexists. split; [reflexivity|].
  unfold revolution, raan_drift, perigee_drift.
  cbn [Snapshot.raanDeg Snapshot.perigeeDeg Omega omega initial a].
  now rewrite !add_0_l.
Qed.

Lemma first_snapshot_drift_witness :
  (1 <= get_revolutions echoI)%nat /\
  exists s rest,
    propagateOrbit echoI = s :: rest /\
    Snapshot.raanDeg s = (raan_drift echoI * DEG)%js /\
    Snapshot.perigeeDeg s = (perigee_drift echoI * DEG)%js.
Proof.
  assert (H : (1 <= get_revolutions echoI)%nat).
  { change (get_revolutions echoI) with 500%nat. lia. }
  split; [exact H | exact (proj2 (first_snapshot_drift echoI) H)].
Defined.

End EchoIFacts.

(** ** Reentry stepping *)

Module ReentryFacts.
Import JSFacts Reentry.

Lemma reentry_atmosphericDensity_Fin (h : R) :
  atmosphericDensity (Fin h) = Fin (1.225 * exp (- h / 7200)).
Proof.
  unfold atmosphericDensity, RHO_0, H_SCALE. js_fin.
  rewrite div_Fin by lra. reflexivity.
Qed.

Lemma gravity_Fin (h : R) :
  6371000 + h <> 0 ->
  gravity (Fin h) =
  Fin (3.986004418e14 / ((6371000 + h) * (6371000 + h))).
Proof.
  intros Hr. unfold gravity, EARTH_RADIUS, MU. js_fin.
  apply div_Fin. nra.
Qed.

Lemma flightPathAngleRate_Fin (l m V h g b : R) (bank : option number) :
  with_default (Fin 0) bank = Fin b ->
  V <> 0 -> m <> 0 -> 6371000 + h <> 0 ->
  flightPathAngleRate (Fin l) (Fin m) (Fin V) (Fin h) (Fin g) bank =
  Fin (l / (m * V) * cos b
       + (V / (6371000 + h)
          - 3.986004418e14 / ((6371000 + h) * (6371000 + h)) / V) * cos g).
Proof.
  intros Hb HV Hm Hr. unfold flightPathAngleRate. rewrite Hb, gravity_Fin by assumption.
  unfold EARTH_RADIUS. js_fin.
  rewrite !div_Fin; try assumption; [reflexivity | nra].
Qed.

(** The step on finite inputs, in real arithmetic. *)
Lemma reentryStep_Fin (g V h m cd cl ar b t : R) (bank : option number) :
  with_default (Fin 0) bank = Fin b ->
  V <> 0 -> m <> 0 -> 6371000 + h <> 0 ->
  let rho := 1.225 * exp (- h / 7200) in
  let drag := 0.5 * rho * V * V * cd * ar in
  let lift := 0.5 * rho * V * V * cl * ar in
  reentryStep {| gamma := Fin g; velocity := Fin V; altitude := Fin h |}
              {| mass := Fin m; Cd := Fin cd; Cl := Fin cl; area := Fin ar;
                 bankAngle := bank |}
              (Fin t) =
  {| gamma :=
       Fin (g + (lift / (m * V) * cos b
                 + (V / (6371000 + h)
                    - 3.986004418e14 / ((6371000 + h) * (6371000 + h)) / V)
                   * cos g) * t);
     velocity := Fin (V - drag / m * t);
     altitude := Fin (h + V * sin g * t) |}.
Proof.
  intros Hb HV Hm Hr rho drag lift. unfold reentryStep.
  cbn [gamma velocity altitude mass Cd Cl area bankAngle].
  rewrite reentry_atmosphericDensity_Fin. unfold dragForce, liftForce. js_fin.
  rewrite (flightPathAngleRate_Fin _ m V h g b bank Hb HV Hm Hr).
  rewrite div_Fin by assumption. js_fin. reflexivity.
Qed.

(** *** Instrumented step *)

Lemma reentryStep_traced_value (s : State) (v : Vehicle) (dt : number) :
  Trace.value (reentryStep_traced s v dt) = reentryStep s v dt.
Proof. reflexivity. Qed.

Lemma reentryStep_traced_divisors (s : State) (v : Vehicle) (dt : number) :
  Trace.divisors (reentryStep_traced s v dt) =
  [ H_SCALE;
    ((EARTH_RADIUS + altitude s) * (EARTH_RADIUS + altitude s))%js;
    (mass v * velocity s)%js;
    (EARTH_RADIUS + altitude s)%js;
    velocity s;
    mass v ].
Proof. reflexivity. Qed.

Lemma mul_neq_0 (x y : number) :
  x <> Fin 0 -> y <> Fin 0 -> (x * y)%js <> Fin 0.
Proof.
  intros Hx Hy.
  destruct x as [x| | |], y as [y| | |]; cbn [JS.mul];
    try discriminate; try apply signed_inf_not_Fin.
  intros H. injection H as H.
  apply Rmult_integral in H. destruct H as [-> | ->]; contradiction.
Qed.

Lemma level_state_forces :
  liftForce (atmosphericDensity (altitude level_state)) (velocity level_state)
            (Cl inert_vehicle) (area inert_vehicle) = Fin 0 /\
  dragForce (atmosphericDensity (altitude level_state)) (velocity level_state)
            (Cd inert_vehicle) (area inert_vehicle) = Fin 0.
Proof.
  unfold level_state, inert_vehicle. cbn [altitude velocity Cl Cd area].
  rewrite reentry_atmosphericDensity_Fin. unfold liftForce, dragForce. js_fin.
  split; f_equal; ring.
Qed.




(** C4: the step is the one section 4.4 of the specification describes,
    gamma + gammaDot dt, V - (drag / mass) dt and altitude + V sin(gamma) dt;
    and the altitude comes from the velocity and angle before the update:
    for a vehicle with drag climbing vertically it differs from what the
    updated values would give. *)
Theorem reentryStep_meets_spec :
  (forall s v dt, reentryStep s v dt = spec_reentryStep s v dt) /\
  altitude (reentryStep vertical_state blunt_vehicle (Fin 1)) = Fin 1 /\
  altitude_from_updated vertical_state blunt_vehicle (Fin 1) = Fin 0.3875.
Proof.
  split.
  - intros s v dt. unfold spec_reentryStep, reentryStep, flightPathAngleRate,
      gravity, dragForce, liftForce. cbv zeta.
    now rewrite <- !mul_square, pow_2.
  - assert (Hg : gamma vertical_state = Fin (PI / 2)).
    { unfold vertical_state, Math_PI. cbn [gamma]. apply div_Fin. lra. }
    assert (Hstep : reentryStep vertical_state blunt_vehicle (Fin 1) =
                    {| gamma := Fin (PI / 2); velocity := Fin 0.3875;
                       altitude := Fin 1 |}).
    { unfold vertical_state, blunt_vehicle in *. cbn [gamma] in Hg. rewrite Hg.
      rewrite (reentryStep_Fin (PI / 2) 1 0 1 1 0 1 0 1 None)
        by (try reflexivity; lra).
      replace (- 0 / 7200) with 0 by lra.
      rewrite exp_0, cos_PI2, sin_PI2, cos_0.
      f_equal; f_equal; lra. }
    unfold altitude_from_updated. rewrite Hstep. cbn [gamma velocity altitude].
    split; [reflexivity|]. unfold vertical_state. cbn [altitude]. js_fin.
    rewrite sin_PI2. f_equal. lra.
Qed.




End ReentryFacts.

(** ** The two atmosphere models *)

Module AtmosphereFacts.
Import JSFacts.

(** An exponential atmosphere [rho0 * exp (- h / H)] with positive
    sea-level density and scale height is strictly decreasing in [h], the
    two infinite altitudes included. *)
Lemma exponential_density_decreasing (rho0 H : R) (h1 h2 : number) :
  0 < rho0 -> 0 < H ->
  (h1 <? h2)%js = true ->
  (Fin rho0 * Math_exp ((- h1) / Fin H) >? Fin rho0 * Math_exp ((- h2) / Fin H))%js
  = true.
Proof.
  intros Hrho HH Hlt.
  assert (HHz : H <> 0) by lra.
  assert (Hinv : 0 < / H) by now apply Rinv_0_lt_compat.
  assert (Hinf : signed_inf rho0 = PInf) by now apply signed_inf_pos.
  assert (HP : (PInf / Fin H)%js = PInf).
  { cbn [JS.div]. destruct (Rlt_dec H 0); [lra | reflexivity]. }
  assert (HN : (NInf / Fin H)%js = NInf).
  { cbn [JS.div]. destruct (Rlt_dec H 0); [lra | reflexivity]. }
  destruct h1 as [x| | |], h2 as [y| | |]; try discriminate Hlt;
    cbn [JS.neg]; rewrite ?div_Fin, ?HP, ?HN by assumption;
    cbn [Math_exp JS.mul]; rewrite ?Hinf; try reflexivity.
  - apply ltb_Fin in Hlt. apply gtb_Fin.
    apply Rmult_lt_compat_l; [assumption|]. apply exp_increasing.
    unfold Rdiv. nra.
  - apply gtb_Fin. pose proof (exp_pos (- x / H)). nra.
Qed.

Lemma exponential_density_sea_level (rho0 H : R) :
  H <> 0 -> (Fin rho0 * Math_exp ((- Fin 0) / Fin H))%js = Fin rho0.
Proof.
  intros HH. cbn [JS.neg]. rewrite div_Fin by assumption. cbn [Math_exp JS.mul].
  replace (- 0 / H) with 0 by (unfold Rdiv; ring).
  rewrite exp_0. f_equal. ring.
Qed.



End AtmosphereFacts.

(* ================================================================= *)
(** * Part III: further properties of the three modules *)
(* ================================================================= *)

(** ** Angles, azimuth and orbital geometry *)

Module AzimuthMore.
Import JSFacts AzimuthFacts Azimuth.

Lemma scale_infinity (c d : R) :
  0 < c -> 0 < d ->
  (PInf * Fin c / Fin d)%js = PInf /\ (NInf * Fin c / Fin d)%js = NInf.
Proof.
  intros Hc Hd. cbn [JS.mul].
  rewrite (signed_inf_pos c Hc), (signed_inf_neg (- c)) by lra.
  cbn [JS.div]. destruct (Rlt_dec d 0); [lra | now split].
Qed.


Lemma computeLaunchAzimuth_polar_from_equator :
  computeLaunchAzimuth (Fin 0) (Fin 90) = Return (Fin 90).
Proof.
  assert (Hc0 : cos (0 * PI / 180) = 1).
  { replace (0 * PI / 180) with 0 by lra. apply cos_0. }
  assert (Hc90 : cos (90 * PI / 180) = 0).
  { replace (90 * PI / 180) with (PI / 2) by lra. apply cos_PI2. }
  rewrite computeLaunchAzimuth_returns; rewrite ?Hc0, ?Hc90.
  - replace (0 / 1) with 0 by lra. rewrite acos_0.
    do 2 f_equal. field. apply PI_neq_0.
  - lra.
  - apply Rabs_le. lra.
Qed.


(** X3: the azimuth depends on the magnitudes of the latitude and of the
    inclination only: southern latitudes and negative inclinations give
    the result of their mirror images, the thrown error included. *)
Theorem computeLaunchAzimuth_magnitudes (lat inc : R) :
  computeLaunchAzimuth (Fin lat) (Fin inc) =
  computeLaunchAzimuth (Fin (Rabs lat)) (Fin (Rabs inc)).
Proof.
  rewrite !computeLaunchAzimuth_unfold.
  assert (H : cos_ratio lat inc = cos_ratio (Rabs lat) (Rabs inc)).
  { unfold cos_ratio. rewrite !degToRad_Fin. cbn [Math_cos].
    now rewrite (cos_deg_abs lat), (cos_deg_abs inc). }
  now rewrite H.
Qed.




(** X5: below the poles, an inclination of the same magnitude as the latitude
    is always reachable and gives the azimuth 0. *)
Theorem computeLaunchAzimuth_minimum_inclination (lat inc : R) :
  Rabs lat < 90 -> Rabs inc = Rabs lat ->
  computeLaunchAzimuth (Fin lat) (Fin inc) = Return (Fin 0).
Proof.
  intros Hlat Heq. pose proof PI_RGT_0 as Hpi. pose proof (Rabs_pos lat) as Hpos.
  assert (Hc : cos (inc * PI / 180) = cos (lat * PI / 180)).
  { now rewrite (cos_deg_abs inc), (cos_deg_abs lat), Heq. }
  assert (Hcpos : 0 < cos (lat * PI / 180)).
  { rewrite cos_deg_abs. apply cos_gt_0; nra. }
  assert (Hq : cos (inc * PI / 180) / cos (lat * PI / 180) = 1).
  { rewrite Hc. field. lra. }
  rewrite computeLaunchAzimuth_returns; rewrite ?Hq.
  - rewrite acos_1. do 2 f_equal. field. lra.
  - lra.
  - rewrite Rabs_R1. lra.
Qed.

Lemma computeLaunchAzimuth_minimum_inclination_witness :
  Rabs 45 < 90 /\ Rabs (-45) = Rabs 45 /\
  computeLaunchAzimuth (Fin 45) (Fin (-45)) = Return (Fin 0).
Proof.
  assert (H1 : Rabs 45 < 90) by (rewrite Rabs_pos_eq; lra).
  assert (H2 : Rabs (-45) = Rabs 45).
  { replace (-45) with (Ropp 45) by lra. apply Rabs_Ropp. }
  split; [exact H1 | split; [exact H2 |]].
  exact (computeLaunchAzimuth_minimum_inclination 45 (-45) H1 H2).
Defined.






(** *** Conic geometry and timing *)

Lemma computeOrbitalRadius_Fin (a e theta : R) :
  1 + e * cos (theta * PI / 180) <> 0 ->
  computeOrbitalRadius (computeSemilatusRectum (Fin a) (Fin e)) (Fin theta) (Fin e)
  = Fin (a * (1 - e ^ 2) / (1 + e * cos (theta * PI / 180))).
Proof.
  intros HD. unfold computeOrbitalRadius, computeSemilatusRectum.
  rewrite degToRad_Fin. js_fin. now apply div_Fin.
Qed.








End AzimuthMore.

(** ** Orbital mechanics of the Echo I model *)

Module EchoIMore.
Import JSFacts EchoIFacts EchoI.









(** *** The J2 drift rates *)

(** The perigee rate on a closed orbit is a positive factor times
    [5 cos^2 i - 1]. *)
Lemma perigee_rate_factor (r e i : R) :
  0 < r -> 0 <= e < 1 ->
  exists K,
    0 < K /\
    perigeeDriftRate (Fin r) (Fin e) (Fin i) = Fin (K * (5 * cos i ^ 2 - 1)).
Proof.
  intros Hr He. assert (He2 : e * e <> 1) by nra.
  destruct (meanMotion_Fin r Hr) as [_ Hn].
  exists (0.75 * j2 * (r_e / r) ^ 2 * sqrt (mu / r ^ 3) * / (1 - e * e) ^ 2).
  split.
  - assert (HA : 0 < (r_e / r) ^ 2).
    { apply pow_lt. apply Rdiv_lt_0_compat; [unfold r_e; lra | exact Hr]. }
    assert (HB : 0 < / (1 - e * e) ^ 2).
    { apply Rinv_0_lt_compat, pow_lt. nra. }
    assert (Hj : 0 < 0.75 * j2) by (unfold j2; lra).
    pose proof (Rmult_lt_0_compat _ _ Hj HA) as H1.
    pose proof (Rmult_lt_0_compat _ _ H1 Hn) as H2.
    exact (Rmult_lt_0_compat _ _ H2 HB).
  - rewrite perigeeDriftRate_Fin by assumption. f_equal. unfold Rdiv. ring.
Qed.





(** *** Runs of [propagateOrbit] *)

Lemma pushed_structure (cfg : OrbitConfig) (k : nat) :
  forall st j s,
    nth_error (pushed cfg k st) j = Some s ->
    Snapshot.orbit s = (N st + j)%nat /\
    Snapshot.altitude s = (Snapshot.semiMajorAxis s - R_E)%js.
Proof.
  induction k as [|k IH]; intros st j s Hj.
  - destruct j; discriminate.
  - cbn [pushed] in Hj. cbv zeta in Hj.
    destruct j as [|j]; cbn [nth_error] in Hj.
    + injection Hj as <-. cbn [Snapshot.orbit Snapshot.altitude Snapshot.semiMajorAxis].
      split; [lia | reflexivity].
    + destruct (IH _ _ _ Hj) as [Ho Ha]. split; [|exact Ha].
      rewrite Ho. unfold revolution. cbn [N]. lia.
Qed.

(** X19: the history has one snapshot per revolution (none for a count of 0),
    numbered from 0 in order, and each snapshot's altitude is its
    semi-major axis minus the Earth radius, whatever the configuration. *)
Theorem propagateOrbit_history (cfg : OrbitConfig) :
  List.length (propagateOrbit cfg) = get_revolutions cfg /\
  forall k s, nth_error (propagateOrbit cfg) k = Some s ->
    Snapshot.orbit s = k /\
    Snapshot.altitude s = (Snapshot.semiMajorAxis s - R_E)%js.
Proof.
  rewrite propagateOrbit_pushed. split; [apply pushed_length|].
  intros k s Hk. now destruct (pushed_structure cfg _ _ _ _ Hk).
Qed.

Lemma pushed_with_revolutions (cfg : OrbitConfig) (n k : nat) :
  forall st, pushed (with_revolutions cfg n) k st = pushed cfg k st.
Proof.
  induction k as [|k IH]; intros st; [reflexivity|].
  cbn [pushed]. cbv zeta.
  change (revolution (with_revolutions cfg n) st) with (revolution cfg st).
  now rewrite IH.
Qed.

Lemma firstn_pushed (cfg : OrbitConfig) (n k : nat) :
  forall st, firstn n (pushed cfg (n + k) st) = pushed cfg n st.
Proof.
  induction n as [|n IH]; intros st; [reflexivity|].
  cbn [Nat.add pushed firstn]. cbv zeta. now rewrite IH.
Qed.

(** X20: the history is append-only: a run of [n] revolutions is the first [n]
    snapshots of any longer run of the same configuration. *)
Theorem propagateOrbit_prefix (cfg : OrbitConfig) (n m : nat) :
  (n <= m)%nat ->
  propagateOrbit (with_revolutions cfg n) =
  firstn n (propagateOrbit (with_revolutions cfg m)).
Proof.
  intros Hnm. rewrite !propagateOrbit_pushed.
  change (get_revolutions (with_revolutions cfg n)) with n.
  change (get_revolutions (with_revolutions cfg m)) with m.
  change (initial (with_revolutions cfg n)) with (initial cfg).
  change (initial (with_revolutions cfg m)) with (initial cfg).
  rewrite !pushed_with_revolutions.
  replace m with (n + (m - n))%nat by lia. now rewrite firstn_pushed.
Qed.

Lemma propagateOrbit_prefix_witness :
  (2 <= 500)%nat /\
  propagateOrbit (with_revolutions echoI 2) =
  firstn 2 (propagateOrbit (with_revolutions echoI 500)).
Proof.
  assert (H : (2 <= 500)%nat) by lia.
  split; [exact H | exact (propagateOrbit_prefix echoI 2 500 H)].
Defined.

Lemma pushed_axis_chain (cfg : OrbitConfig) (A m c : R) (k : nat) :
  area cfg = Fin A -> 0 < A -> mass cfg = Fin m -> 0 < m ->
  get_dragCoeff cfg = Fin c -> 0 < c ->
  forall st r,
    a st = Fin r -> 0 < r ->
    axis_stays_positive (pushed cfg k st) ->
    strictly_decreasing (Fin r :: map Snapshot.semiMajorAxis (pushed cfg k st)).
Proof.
  intros HA HApos Hm Hmpos Hc Hcpos.
  induction k as [|k IH]; intros st r Ha Hr Hpos.
  - repeat constructor.
  - cbn [pushed] in *. cbv zeta in *.
    assert (Hmz : m <> 0) by lra.
    pose proof (revolution_axis_Fin cfg st r A m c Ha Hr HA Hm Hmz Hc) as Ha'.
    remember (revolution cfg st) as st' eqn:Est'.
    apply Forall_cons_iff in Hpos. destruct Hpos as [(r' & Hr'eq & Hr') Hpos].
    cbn [Snapshot.semiMajorAxis] in Hr'eq.
    cbn [map Snapshot.semiMajorAxis].
    constructor.
    + rewrite Hr'eq. now apply (IH st' r').
    + constructor. rewrite Ha'. apply gtb_Fin.
      assert (Hq : 0 < A / m) by now apply Rdiv_lt_0_compat.
      pose proof (exp_pos (- (r - r_e) / 8500)) as HE.
      pose proof PI_RGT_0 as Hpi.
      assert (H1 : 0 < c * (A / m)) by now apply Rmult_lt_0_compat.
      assert (H2 : 0 < 1.225 * exp (- (r - r_e) / 8500)) by lra.
      assert (H3 : 0 < 2 * PI * r ^ 2).
      { apply Rmult_lt_0_compat; [lra | now apply pow_lt]. }
      assert (H4 : 0 < c * (A / m) * (1.225 * exp (- (r - r_e) / 8500))
                       * (2 * PI * r ^ 2)).
      { apply Rmult_lt_0_compat; [now apply Rmult_lt_0_compat | exact H3]. }
      lra.
Qed.



Lemma revolution_perigee (cfg : OrbitConfig) (st : Vars) (r w e0 i0 : R) :
  get_eccentricity cfg = Fin e0 -> 0 <= e0 < 1 ->
  inclination cfg = Fin i0 ->
  a st = Fin r -> 0 < r -> omega st = Fin w ->
  exists d, omega (revolution cfg st) = Fin (w + d) /\
            (1 < 5 * cos i0 ^ 2 -> 0 < d) /\ (5 * cos i0 ^ 2 < 1 -> d < 0).
Proof.
  intros He Hrange Hi Ha Hr Ho.
  destruct (perigee_rate_factor r e0 i0 Hr Hrange) as (K & HK & Hq).
  destruct (orbitalPeriod_Fin r Hr) as [HT HTpos].
  unfold revolution. cbn [omega]. rewrite Ha, Ho, He, Hi, HT, Hq. js_fin.
  eexists. split; [reflexivity|].
  assert (HKT : 0 < K * (2 * PI / sqrt (mu / r ^ 3)))
    by now apply Rmult_lt_0_compat.
  split; intros Hc; nra.
Qed.

Lemma pushed_perigee_chain (cfg : OrbitConfig) (e0 i0 : R)
  (rel : number -> number -> Prop) (ok : R -> Prop) (k : nat) :
  get_eccentricity cfg = Fin e0 -> 0 <= e0 < 1 ->
  inclination cfg = Fin i0 ->
  (forall w d, ok d -> rel (Fin (w * (180 / PI))) (Fin ((w + d) * (180 / PI)))) ->
  (forall d, ((1 < 5 * cos i0 ^ 2 -> 0 < d) /\ (5 * cos i0 ^ 2 < 1 -> d < 0)) ->
             ok d) ->
  forall st r w,
    a st = Fin r -> 0 < r -> omega st = Fin w ->
    axis_stays_positive (pushed cfg k st) ->
    Sorted rel (map Snapshot.perigeeDeg (pushed cfg k st)) /\
    HdRel rel (Fin (w * (180 / PI))) (map Snapshot.perigeeDeg (pushed cfg k st)).
Proof.
  intros He Hrange Hi Hstep Hok.
  induction k as [|k IH]; intros st r w Ha Hr Ho Hpos.
  - split; constructor.
  - cbn [pushed] in *. cbv zeta in *.
    destruct (revolution_perigee cfg st r w e0 i0 He Hrange Hi Ha Hr Ho)
      as (d & Ho' & Hsign).
    remember (revolution cfg st) as st' eqn:Est'.
    apply Forall_cons_iff in Hpos. destruct Hpos as [(r' & Ha' & Hr') Hpos].
    cbn [Snapshot.semiMajorAxis] in Ha'.
    destruct (IH st' r' (w + d) Ha' Hr' Ho' Hpos) as [Hsorted Hhd].
    cbn [map Snapshot.perigeeDeg]. rewrite Ho', DEG_Fin. js_fin.
    split; constructor; try assumption. apply Hstep, Hok, Hsign.
Qed.



(** *** After the axis has left the positive reals *)

Lemma revolution_poisoned (cfg : OrbitConfig) (st : Vars) :
  axis_lost (a st) ->
  a (revolution cfg st) = NaN /\
  Omega (revolution cfg st) = NaN /\
  omega (revolution cfg st) = NaN.
Proof.
  intros Hbad.
  assert (HT : orbitalPeriod (a st) = NaN).
  { unfold orbitalPeriod. destruct Hbad as [-> | (r & -> & Hr)].
    - reflexivity.
    - rewrite (meanMotion_negative r Hr). apply div_NaN_r. }
  unfold revolution. cbn [a Omega omega]. rewrite HT.
  now rewrite !mul_NaN_r, !add_NaN_r.
Qed.

Lemma pushed_poisoned (cfg : OrbitConfig) (k : nat) :
  forall st,
    axis_lost (a st) ->
    Forall (fun s => Snapshot.semiMajorAxis s = NaN /\
                     Snapshot.raanDeg s = NaN /\
                     Snapshot.perigeeDeg s = NaN)
           (pushed cfg k st).
Proof.
  induction k as [|k IH]; intros st Hbad; [constructor|].
  cbn [pushed]. cbv zeta.
  destruct (revolution_poisoned cfg st Hbad) as (Ha & HO & Ho).
  constructor.
  - cbn [Snapshot.semiMajorAxis Snapshot.raanDeg Snapshot.perigeeDeg].
    rewrite Ha, HO, Ho. now repeat split.
  - apply IH. left. exact Ha.
Qed.

Lemma pushed_suffix (cfg : OrbitConfig) (j : nat) :
  forall k st s,
    nth_error (pushed cfg k st) j = Some s ->
    Snapshot.semiMajorAxis s = a (loop cfg (S j) st) /\
    forall i s',
      nth_error (pushed cfg k st) (S j + i) = Some s' ->
      nth_error (pushed cfg (k - S j) (loop cfg (S j) st)) i = Some s'.
Proof.
  induction j as [|j IH]; intros k st s Hj.
  - destruct k as [|k]; [discriminate|].
    cbn [pushed nth_error] in Hj. cbv zeta in Hj. injection Hj as <-.
    cbn [Snapshot.semiMajorAxis loop]. split; [reflexivity|].
    intros i s' Hi. cbn [pushed Nat.add nth_error] in Hi. cbv zeta in Hi.
    now rewrite Nat.sub_succ, Nat.sub_0_r.
  - destruct k as [|k]; [discriminate|].
    cbn [pushed nth_error] in Hj. cbv zeta in Hj.
    destruct (IH _ _ _ Hj) as [Ha Hrest].
    split; [exact Ha|].
    intros i s' Hi. cbn [pushed Nat.add nth_error] in Hi. cbv zeta in Hi.
    rewrite Nat.sub_succ. change (loop cfg (S (S j)) st)
      with (loop cfg (S j) (revolution cfg st)).
    now apply Hrest.
Qed.

(** X23: the loop never stops and never recovers: once a snapshot reports a
    semi-major axis that is negative or [NaN], every later snapshot reports
    [NaN] for the axis, the RAAN and the argument of perigee. *)
Theorem propagateOrbit_no_recovery (cfg : OrbitConfig) (j k : nat)
  (s s' : Snapshot.t) :
  nth_error (propagateOrbit cfg) j = Some s ->
  axis_lost (Snapshot.semiMajorAxis s) ->
  (j < k)%nat ->
  nth_error (propagateOrbit cfg) k = Some s' ->
  Snapshot.semiMajorAxis s' = NaN /\
  Snapshot.raanDeg s' = NaN /\
  Snapshot.perigeeDeg s' = NaN.
Proof.
  rewrite propagateOrbit_pushed. intros Hj Hbad Hjk Hk.
  destruct (pushed_suffix cfg j _ _ _ Hj) as [Ha Hrest].
  replace k with (S j + (k - S j))%nat in Hk by lia.
  apply Hrest in Hk. apply nth_error_In in Hk.
  rewrite Ha in Hbad.
  pose proof (pushed_poisoned cfg (get_revolutions cfg - S j) _ Hbad) as Hall.
  rewrite Forall_forall in Hall. now apply Hall.
Qed.

Lemma echoI_low_run :
  exists s0 s1,
    nth_error (propagateOrbit echoI_low) 0 = Some s0 /\
    axis_lost (Snapshot.semiMajorAxis s0) /\
    nth_error (propagateOrbit echoI_low) 1 = Some s1.
Proof.
  destruct echoI_low_first_axis as (r1 & Ha1 & Hr1).
  rewrite propagateOrbit_pushed.
  change (get_revolutions echoI_low) with 2%nat.
  cbn [pushed nth_error]. cbv zeta.
  eexists. eexists. split; [reflexivity | split; [|reflexivity]].
  cbn [Snapshot.semiMajorAxis]. right. exists r1. now split.
Qed.

Lemma propagateOrbit_no_recovery_witness :
  exists s1,
    nth_error (propagateOrbit echoI_low) 1 = Some s1 /\
    Snapshot.semiMajorAxis s1 = NaN /\
    Snapshot.raanDeg s1 = NaN /\
    Snapshot.perigeeDeg s1 = NaN.
Proof.
  destruct echoI_low_run as (s0 & s1 & H0 & Hbad & H1).
  exists s1. split; [exact H1|].
  exact (propagateOrbit_no_recovery echoI_low 0 1 s0 s1 H0 Hbad (le_n 1) H1).
Defined.

End EchoIMore.

(** ** Forces and stepping of the reentry module *)

Module ReentryMore.
Import JSFacts ReentryFacts Reentry.









Lemma reentryStep_velocity (s : State) (v : Vehicle) (V h m cd ar t : R) :
  velocity s = Fin V -> altitude s = Fin h ->
  mass v = Fin m -> m <> 0 -> Cd v = Fin cd -> area v = Fin ar ->
  velocity (reentryStep s v (Fin t)) =
  Fin (V - 0.5 * (1.225 * exp (- h / 7200)) * V * V * cd * ar / m * t).
Proof.
  intros HV Hh Hm Hmz Hcd Har. unfold reentryStep. cbn [velocity].
  rewrite HV, Hh, Hm, Hcd, Har, reentry_atmosphericDensity_Fin.
  unfold dragForce. js_fin. rewrite div_Fin by assumption. reflexivity.
Qed.





End ReentryMore.
